(** * The fast OpenAI GPT tokenizer adapter and the BPE engine behind it

    A shallow embedding of
    [mindnlp/transformers/models/gpt/tokenization_gpt_fast.py].

    The Python module is an adapter: it fixes file names, remote locations
    and the positional-embedding size of the pretrained checkpoint, forwards
    its constructor arguments to the inherited fast-tokenizer constructor
    and hands vocabulary persistence to the backend model kept in
    [self._tokenizer.model].  The adapter is embedded from the source.  The
    byte-pair-encoding engine it wraps (vocabulary table, merge rank table,
    pre-tokenizer, encoder, per-table persistence) is not part of the
    source file; module [Engine] models it from the specification. *)

From Stdlib Require Import Ascii String ZArith Lia.
From stdpp Require Import gmap strings list sorting relations.

Open Scope string_scope.
Open Scope list_scope.
Open Scope nat_scope.

(** ** Python values, exceptions and results *)

(** The exceptions the adapter and the engine can raise. *)
Inductive exn : Type :=
  | TypeError
  | IOError
  | FormatError
  | DuplicateIdError
  | DuplicateRuleError.

(** The outcome of a call: a returned value or a raised exception. *)
Inductive result (A : Type) : Type :=
  | Ok (a : A)
  | Raise (e : exn).
Arguments Ok {A} a.
Arguments Raise {A} e.

(** [result] is an error monad; stdpp's [x ← r; k] notation is used for it. *)
Global Instance result_ret : MRet result := λ A a, Ok a.
Global Instance result_bind : MBind result := λ A B k r,
  match r with
  | Ok a => k a
  | Raise e => Raise e
  end.

(** The Python values that reach the constructor. *)
Inductive pyval : Type :=
  | PyNone
  | PyStr (s : string)
  | PyInt (z : Z)
  | PyBool (b : bool).

Global Instance exn_eq_dec : EqDecision exn.
Proof. solve_decision. Defined.
Global Instance pyval_eq_dec : EqDecision pyval.
Proof. solve_decision. Defined.

(** [tuple(iterable)]: the items of the iterable, in order.  Python lists
    and tuples of strings are both Rocq lists here. *)
Definition tuple {A} (iterable : list A) : list A := iterable.

(** [dict.get(key, default)]. *)
Definition get {V} (d : gmap string V) (key : string) (dflt : V) : V :=
  default dflt (d !! key).

(** ** Module-level tables of the source *)

Definition VOCAB_FILES_NAMES : gmap string string :=
  <["vocab_file" := "vocab.json"]>
  (<["merges_file" := "merges.txt"]>
  (<["tokenizer_file" := "tokenizer.json"]> ∅)).

Definition PRETRAINED_VOCAB_FILES_MAP : gmap string (gmap string string) :=
  <["vocab_file" :=
      {["openai-gpt" := "https://hf-mirror.com/openai-gpt/resolve/main/vocab.json"]}]>
  (<["merges_file" :=
      {["openai-gpt" := "https://hf-mirror.com/openai-gpt/resolve/main/merges.txt"]}]>
  (<["tokenizer_file" :=
      {["openai-gpt" := "https://hf-mirror.com/openai-gpt/resolve/main/tokenizer.json"]}]> ∅)).

Definition PRETRAINED_POSITIONAL_EMBEDDINGS_SIZES : gmap string Z :=
  {["openai-gpt" := 512%Z]}.

(** ** A file system

    Persistence is the only effect of the adapter.  The file system is
    threaded explicitly: a path holds a regular file or a directory. *)

(** A vocabulary file is a JSON document; the JSON codec is a collaborator,
    so a document is kept as the value it denotes. *)
#[local] Set Warnings "-register-all".
Inductive json : Type :=
  | JNull
  | JNum (z : Z)
  | JStr (s : string)
  | JArr (items : list json)
  | JObj (members : list (string * json)).
#[local] Set Warnings "register-all".

Inductive content : Type :=
  | JsonDoc (j : json)
  | TextDoc (s : string).

Inductive node : Type :=
  | File (data : content)
  | Directory (writable : bool).

Abbreviation filesystem := (gmap string node).

(** ** The backend of a fast tokenizer

    [self._tokenizer] is an object of the external tokenizers library; the
    adapter uses one method of it, [self._tokenizer.model.save]. *)
Module tokenizers.

Record Model : Type := {
  save : string → option string → filesystem → filesystem * result (list string)
}.

Record Tokenizer : Type := {
  model : Model
}.

End tokenizers.

(** ** class GPTTokenizerFast *)

(** An instance, as far as the methods of the source read it. *)
Record GPTTokenizerFast : Type := {
  _tokenizer : tokenizers.Tokenizer
}.

(** Class attributes. *)
Definition vocab_files_names : gmap string string := VOCAB_FILES_NAMES.
Definition pretrained_vocab_files_map : gmap string (gmap string string) :=
  PRETRAINED_VOCAB_FILES_MAP.
Definition max_model_input_sizes : gmap string Z :=
  PRETRAINED_POSITIONAL_EMBEDDINGS_SIZES.
Definition model_input_names : list string := ["input_ids"; "attention_mask"].

(** *** [__init__]

    [def __init__(self, vocab_file=None, merges_file=None,
                  tokenizer_file=None, unk_token="<unk>", **kwargs)] *)

(** The parameters after binding a call. *)
Record init_args : Type := {
  vocab_file : pyval;
  merges_file : pyval;
  tokenizer_file : pyval;
  unk_token : pyval;
  kwargs : gmap string pyval
}.

(** Python binds parameter number [i], called [name]: from the positional
    arguments, else from the keywords, else from its default; a value given
    both ways is a [TypeError]. *)
Definition bind_param (i : nat) (name : string) (dflt : pyval)
    (args : list pyval) (kw : gmap string pyval) : result pyval :=
  match args !! i, kw !! name with
  | Some _, Some _ => Raise TypeError
  | Some v, None => Ok v
  | None, Some v => Ok v
  | None, None => Ok dflt
  end.

(** Binding a call with positional arguments [args] and keyword arguments
    [kw] to the signature.  The first parameter, [self], is bound to the
    instance under construction, so a keyword [self] is a second value for
    it, a [TypeError]; at most four positional arguments follow [self];
    keywords that name no parameter are collected in [kwargs]. *)
Definition bind_init (args : list pyval) (kw : gmap string pyval) : result init_args :=
  if decide (4 < length args) then Raise TypeError else
  if decide (is_Some (kw !! "self")) then Raise TypeError else
  vf ← bind_param 0 "vocab_file" PyNone args kw ;
  mf ← bind_param 1 "merges_file" PyNone args kw ;
  tf ← bind_param 2 "tokenizer_file" PyNone args kw ;
  ut ← bind_param 3 "unk_token" (PyStr "<unk>") args kw ;
  Ok {| vocab_file := vf; merges_file := mf; tokenizer_file := tf; unk_token := ut;
        kwargs := delete "vocab_file" (delete "merges_file"
                    (delete "tokenizer_file" (delete "unk_token" kw))) |}.

Section Init.

(** The inherited constructor [PreTrainedTokenizerFast.__init__], called
    with positional and keyword arguments; it builds the instance. *)
Variable PreTrainedTokenizerFast__init__ :
  list pyval → gmap string pyval → result GPTTokenizerFast.

(** [super().__init__(vocab_file, merges_file, tokenizer_file=tokenizer_file,
                      unk_token=unk_token, **kwargs)] *)
Definition __init__ (args : list pyval) (kw : gmap string pyval) : result GPTTokenizerFast :=
  a ← bind_init args kw ;
  PreTrainedTokenizerFast__init__
    [vocab_file a; merges_file a]
    (<["tokenizer_file" := tokenizer_file a]>
      (<["unk_token" := unk_token a]> (kwargs a))).

End Init.

(** *** [do_lower_case] (a property) *)
Definition do_lower_case (self : GPTTokenizerFast) : bool := true.

(** *** [save_vocabulary]

    [files = self._tokenizer.model.save(save_directory, name=filename_prefix)]
    [return tuple(files)]

    An exception of the backend propagates; the file system is left as the
    backend left it. *)
Definition save_vocabulary (self : GPTTokenizerFast) (save_directory : string)
    (filename_prefix : option string) (fs : filesystem)
    : filesystem * result (list string) :=
  let '(fs', r) :=
    tokenizers.save (tokenizers.model (_tokenizer self)) save_directory filename_prefix fs in
  (fs', files ← r; Ok (tuple files)).

(** ** The BPE engine (modelled from the specification)

    The source file holds no tokenization code: encoding and the
    per-table file formats belong to the engine the adapter wraps.  The
    definitions of this module follow the specification's component
    design, one definition per operation it names. *)
Module Engine.

(** *** Data model *)

(** Modelled from the spec: a Vocabulary Table, the mapping from token
    strings to non-negative integer ids (the engine's vocabulary is not
    in the source). *)
Abbreviation VocabularyTable := (gmap string nat).

(** Modelled from the spec: a Merge Rank Table, the mapping from a
    (left, right) pair of symbols to its rank (the engine's merge rules
    are not in the source). *)
Abbreviation MergeRankTable := (gmap (string * string) nat).

(** Modelled from the spec: [tokenToId(token) -> Optional<TokenId>] of
    the absent Vocabulary Table. *)
Definition tokenToId (v : VocabularyTable) (token : string) : option nat :=
  v !! token.

(** Modelled from the spec: [rankOf(left, right) -> Optional<int>] of the
    absent Merge-Rule Compiler. *)
Definition rankOf (m : MergeRankTable) (l r : string) : option nat :=
  m !! (l, r).

(** Modelled from the spec: the absent engine as constructed: both tables
    and the configured unknown-token id. *)
Record t : Type := {
  vocab : VocabularyTable;
  ranks : MergeRankTable;
  unk_id : nat
}.

(** *** Pre-tokenizer *)

(** Modelled from the spec: lowercasing of one character of the input,
    for the absent pre-tokenizer. *)
Definition lower_char (c : ascii) : ascii :=
  let n := nat_of_ascii c in
  if ((65 <=? n) && (n <=? 90))%nat then ascii_of_nat (n + 32) else c.

(** Modelled from the spec: the punctuation the absent pre-tokenizer
    separates out; the rule set chosen here is ASCII punctuation. *)
Definition is_punct (c : ascii) : bool :=
  let n := nat_of_ascii c in
  (((33 <=? n) && (n <=? 47)) || ((58 <=? n) && (n <=? 64))
   || ((91 <=? n) && (n <=? 96)) || ((123 <=? n) && (n <=? 126)))%nat.

(** Modelled from the spec: the absent pre-tokenizer lowercases the
    whole input and sets every punctuation character apart. *)
Fixpoint normalize (text : string) : string :=
  match text with
  | EmptyString => EmptyString
  | String c rest =>
      let c' := lower_char c in
      if is_punct c'
      then String " " (String c' (String " " (normalize rest)))
      else String c' (normalize rest)
  end.

(** Modelled from the spec: [split(text)] of the absent pre-tokenizer:
    lowercase, then split on whitespace with punctuation as word units of
    their own; empty input yields the empty sequence. *)
Definition split (text : string) : list string :=
  String.words (normalize text).

(** *** BPE encoder *)

(** Modelled from the spec: the word-final marker of the absent encoder. *)
Definition end_of_word : string := "</w>".

(** Modelled from the spec: the initial state of the absent encoder's
    state machine: the word split into single characters, the marker
    appended to the last one. *)
Fixpoint initial_symbols (word : string) : list string :=
  match word with
  | EmptyString => []
  | String c EmptyString => [String c end_of_word]
  | String c rest => String c EmptyString :: initial_symbols rest
  end.

(** Modelled from the spec: the scan of the absent encoder over every
    adjacent pair, from position [i] on: [best] is the position and rank
    of the lowest rank seen so far, replaced only by a strictly lower
    rank. *)
Fixpoint scan_pairs (m : MergeRankTable) (i : nat) (syms : list string)
    (best : option (nat * nat)) : option (nat * nat) :=
  match syms with
  | l :: ((r :: _) as rest) =>
      let best' :=
        match rankOf m l r, best with
        | Some rk, Some (_, rk0) => if decide (rk < rk0) then Some (i, rk) else best
        | Some rk, None => Some (i, rk)
        | None, _ => best
        end in
      scan_pairs m (S i) rest best'
  | _ => best
  end.

(** Modelled from the spec: the pair the absent encoder selects in one
    step, as its position and rank. *)
Definition best_pair (m : MergeRankTable) (syms : list string) : option (nat * nat) :=
  scan_pairs m 0 syms None.

(** Modelled from the spec: the absent encoder merges the two symbols at
    positions [i] and [i+1] into one new symbol. *)
Definition merge_at (i : nat) (syms : list string) : list string :=
  match drop i syms with
  | l :: r :: rest => take i syms ++ (l +:+ r) :: rest
  | _ => syms
  end.

(** Modelled from the spec: one transition of the absent encoder's state
    machine; [None] when no adjacent pair has a rank. *)
Definition merge_step (m : MergeRankTable) (syms : list string) : option (list string) :=
  match best_pair m syms with
  | Some (i, _) => Some (merge_at i syms)
  | None => None
  end.

(** Modelled from the spec: the merge loop of the absent encoder, run for
    at most [fuel] transitions; [None] when a pair is still mergeable
    after that many. *)
Fixpoint merge_loop (m : MergeRankTable) (fuel : nat) (syms : list string)
    : option (list string) :=
  match merge_step m syms with
  | None => Some syms
  | Some syms' =>
      match fuel with
      | O => None
      | S fuel' => merge_loop m fuel' syms'
      end
  end.

(** Modelled from the spec: the absent encoder on one word; the loop is
    given the [|word|-1] transitions the specification bounds it by. *)
Definition bpe (m : MergeRankTable) (word : string) : option (list string) :=
  merge_loop m (String.length word - 1) (initial_symbols word).

(** Modelled from the spec: the absent encoder's vocabulary lookup of a
    final symbol; a miss maps to the unknown-token id. *)
Definition id_of (e : t) (symbol : string) : nat :=
  match tokenToId (vocab e) symbol with
  | Some i => i
  | None => unk_id e
  end.

(** Modelled from the spec: the symbols the absent encoder's merge loops
    leave for a text, word after word. *)
Definition encode_symbols (e : t) (text : string) : option (list string) :=
  @concat string <$> mapM (bpe (ranks e)) (split text).

(** Modelled from the spec: [encode(text) -> sequence<TokenId>] of the
    absent engine; [None] stands for a call that does not return. *)
Definition encode (e : t) (text : string) : option (list nat) :=
  (λ syms : list string, id_of e <$> syms) <$> encode_symbols e text.

(** *** The encoder as a transition relation *)

(** Modelled from the spec: the adjacent pair at position [i] of the
    absent encoder's state is [(l, r)] and has rank [rk]. *)
Definition ranked_at (m : MergeRankTable) (syms : list string)
    (i : nat) (l r : string) (rk : nat) : Prop :=
  syms !! i = Some l ∧ syms !! (S i) = Some r ∧ rankOf m l r = Some rk.

(** Modelled from the spec: position [i] holds the pair of globally
    lowest rank, the leftmost one among pairs of that rank. *)
Definition selected (m : MergeRankTable) (syms : list string)
    (i : nat) (l r : string) (rk : nat) : Prop :=
  ranked_at m syms i l r rk ∧
  ∀ j l' r' rk', ranked_at m syms j l' r' rk' → rk < rk' ∨ (rk = rk' ∧ i ≤ j).

(** Modelled from the spec: the transition of the absent encoder's state
    machine, in the specification's words. *)
Inductive bpe_step (m : MergeRankTable) : relation (list string) :=
  | bpe_step_merge syms i l r rk :
      selected m syms i l r rk →
      bpe_step m syms (take i syms ++ (l +:+ r) :: drop (2 + i) syms).

(** Modelled from the spec: a run of the absent encoder on one word, from
    the initial state to a state with no ranked adjacent pair. *)
Definition encodes_word (m : MergeRankTable) (word : string) (final : list string) : Prop :=
  rtc (bpe_step m) (initial_symbols word) final ∧ nf (bpe_step m) final.

(** Modelled from the spec: [encode(text)] of the absent engine as a
    relation between a text and the ids of a run. *)
Definition encodes (e : t) (text : string) (ids : list nat) : Prop :=
  ∃ finals : list (list string),
    Forall2 (encodes_word (ranks e)) (split text) finals ∧
    ids = id_of e <$> concat finals.

End Engine.

(** ** The persistence layer of the engine (modelled from the specification)

    The two file formats and the per-table [load] and [save] operations.
    Neither is in the source file, which only calls the backend's [save]. *)
Module Persistence.

Import Engine.

(** *** Files *)

(** Modelled from the spec: the name of a saved file, the optional
    prefix put before the base name (the naming code is not in the
    source). *)
Definition file_name (prefix : option string) (base : string) : string :=
  match prefix with
  | Some p => p +:+ "-" +:+ base
  | None => base
  end.

(** Modelled from the spec: the path of a file in a directory (the
    path handling is not in the source). *)
Definition path_join (directory name : string) : string :=
  directory +:+ "/" +:+ name.

(** Modelled from the spec: writing one file, for the absent per-table
    [save]: the directory is created when absent, an [IOError] is raised
    when it is not a writable directory or when the target is a
    directory; the path written is returned. *)
Definition write_file (directory name : string) (data : content) (fs : filesystem)
    : filesystem * result string :=
  match fs !! directory with
  | Some (File _) | Some (Directory false) => (fs, Raise IOError)
  | parent =>
      let fs1 := match parent with
                 | None => <[directory := Directory true]> fs
                 | Some _ => fs
                 end in
      let path := path_join directory name in
      match fs1 !! path with
      | Some (Directory _) => (fs1, Raise IOError)
      | _ => (<[path := File data]> fs1, Ok path)
      end
  end.

(** Modelled from the spec: reading one file, for the absent per-table
    [load]; an [IOError] when the path holds no regular file. *)
Definition read_file (path : string) (fs : filesystem) : result content :=
  match fs !! path with
  | Some (File data) => Ok data
  | _ => Raise IOError
  end.

(** Modelled from the spec: the stable order of a saved table, by id
    (or rank), for the absent writers. *)
Definition by_number {A} : relation (A * nat) := λ a b, a.2 ≤ b.2.

Global Instance by_number_dec {A} (a b : A * nat) : Decision (by_number a b) :=
  decide (a.2 ≤ b.2).

Global Instance by_number_transitive {A} : Transitive (@by_number A).
Proof. unfold by_number. intros x y z ? ?. lia. Qed.

Global Instance by_number_total {A} : Total (@by_number A).
Proof. unfold by_number. intros x y. lia. Qed.

(** *** The vocabulary file: a JSON object from token to id *)

(** Modelled from the spec: the document the absent Vocabulary Table
    [save] writes: one member per token, in the order of the ids. *)
Definition vocab_to_json (v : VocabularyTable) : json :=
  JObj ((λ kv : string * nat, (kv.1, JNum (Z.of_nat kv.2)))
          <$> merge_sort by_number (map_to_list v)).

(** Modelled from the spec: one member of the vocabulary document, read
    by the absent Vocabulary Table [load]; a value that is not a
    non-negative integer is a [FormatError]. *)
Definition member_entry (kv : string * json) : result (string * nat) :=
  match kv.2 with
  | JNum z => if decide (0 ≤ z)%Z then Ok (kv.1, Z.to_nat z) else Raise FormatError
  | _ => Raise FormatError
  end.

(** Modelled from the spec: the absent Vocabulary Table [load] on a
    parsed document: [FormatError] unless it is an object of integers
    (a repeated key keeps its last value), [DuplicateIdError] when two
    tokens map to the same id. *)
Definition vocab_of_json (j : json) : result VocabularyTable :=
  match j with
  | JObj members =>
      entries ← mapM member_entry members;
      let v : VocabularyTable := list_to_map (reverse entries) in
      if decide (NoDup (map_to_list v).*2) then Ok v else Raise DuplicateIdError
  | _ => Raise FormatError
  end.

(** *** The merges file: a header, then one ["left right"] line per rule *)

(** Modelled from the spec: the line separator of the merges file. *)
Definition newline : ascii := "010"%char.

(** Modelled from the spec: the separator of the two symbols of a rule. *)
Definition space : ascii := " "%char.

(** Modelled from the spec: the optional first-line version comment of
    the merges file, as the absent Merge Rank Table [save] writes it. *)
Definition merges_header : string := "#version: 0.2".

(** Modelled from the spec: the line of one rule, [left], one space,
    [right] (the merges writer is not in the source). *)
Definition rule_line (rule : string * string) : string :=
  rule.1 +:+ String space rule.2.

(** Modelled from the spec: newline-delimited text from lines (the
    merges writer is not in the source). *)
Fixpoint unlines (ls : list string) : string :=
  match ls with
  | [] => EmptyString
  | l :: ls' => l +:+ String newline (unlines ls')
  end.

(** Modelled from the spec: the text the absent Merge Rank Table [save]
    writes: the header, then the rules in the order of their ranks. *)
Definition merges_to_text (m : MergeRankTable) : string :=
  unlines (merges_header ::
           (rule_line <$> (merge_sort by_number (map_to_list m)).*1)).

(** Modelled from the spec: the fields of a line between separators
    (the merges parser is not in the source). *)
Fixpoint split_on (sep : ascii) (s : string) : list string :=
  match s with
  | EmptyString => [EmptyString]
  | String c rest =>
      if decide (c = sep) then EmptyString :: split_on sep rest
      else match split_on sep rest with
           | field :: fields => String c field :: fields
           | [] => [String c EmptyString]
           end
  end.

(** Modelled from the spec: the lines of a newline-delimited text; the
    newline after the last line is optional (the merges parser is not in
    the source). *)
Fixpoint lines (text : string) : list string :=
  match text with
  | EmptyString => []
  | String c rest =>
      if decide (c = newline) then EmptyString :: lines rest
      else match lines rest with
           | line :: ls => String c line :: ls
           | [] => [String c EmptyString]
           end
  end.

(** Modelled from the spec: a rule line read by the absent Merge Rank
    Table [load]: exactly two space-separated symbols, else a
    [FormatError]. *)
Definition parse_rule (line : string) : result (string * string) :=
  match split_on space line with
  | [l; r] => Ok (l, r)
  | _ => Raise FormatError
  end.

(** Modelled from the spec: whether a first line is the version header
    the absent Merge Rank Table [load] skips. *)
Definition is_header (line : string) : bool := String.prefix "#version" line.

(** Modelled from the spec: the absent Merge Rank Table [load] on the
    text of a file: the header is skipped, the rank of a rule is its
    0-based line index, a malformed line is a [FormatError], a repeated
    pair a [DuplicateRuleError]. *)
Definition merges_of_text (text : string) : result MergeRankTable :=
  let ls := lines text in
  let body := match ls with
              | first :: rest => if is_header first then rest else ls
              | [] => []
              end in
  rules ← mapM parse_rule body;
  if decide (NoDup rules)
  then Ok (list_to_map (imap (λ i rule, (rule, i)) rules))
  else Raise DuplicateRuleError.

(** *** [load] and [save] of the two tables *)

Module Vocabulary.

(** Modelled from the spec: [save(directory, prefix) -> path] of the
    absent Vocabulary Table. *)
Definition save (v : VocabularyTable) (directory : string) (prefix : option string)
    (fs : filesystem) : filesystem * result string :=
  write_file directory (file_name prefix (get VOCAB_FILES_NAMES "vocab_file" ""))
    (JsonDoc (vocab_to_json v)) fs.

(** Modelled from the spec: [load(path) -> VocabularyTable] of the
    absent Vocabulary Table. *)
Definition load (path : string) (fs : filesystem) : result VocabularyTable :=
  data ← read_file path fs;
  match data with
  | JsonDoc j => vocab_of_json j
  | TextDoc _ => Raise FormatError
  end.

End Vocabulary.

Module Merges.

(** Modelled from the spec: the [save] of the absent Merge Rank Table,
    the counterpart of the Vocabulary Table's. *)
Definition save (m : MergeRankTable) (directory : string) (prefix : option string)
    (fs : filesystem) : filesystem * result string :=
  write_file directory (file_name prefix (get VOCAB_FILES_NAMES "merges_file" ""))
    (TextDoc (merges_to_text m)) fs.

(** Modelled from the spec: [load(path) -> MergeRankTable] of the
    absent Merge-Rule Compiler. *)
Definition load (path : string) (fs : filesystem) : result MergeRankTable :=
  data ← read_file path fs;
  match data with
  | TextDoc text => merges_of_text text
  | JsonDoc _ => Raise FormatError
  end.

End Merges.

(** Modelled from the spec: the path the absent Vocabulary Table [save]
    writes to. *)
Definition vocab_path (directory : string) (prefix : option string) : string :=
  path_join directory (file_name prefix (get VOCAB_FILES_NAMES "vocab_file" "")).

(** Modelled from the spec: the path the absent Merge Rank Table [save]
    writes to. *)
Definition merges_path (directory : string) (prefix : option string) : string :=
  path_join directory (file_name prefix (get VOCAB_FILES_NAMES "merges_file" "")).

End Persistence.

(** ** Properties a save operation may have *)

(** A regular file is at [path]. *)
Definition is_file (fs : filesystem) (path : string) : Prop :=
  ∃ data, fs !! path = Some (File data).

(** A save operation is all-or-nothing for the vocabulary file at
    [vocab_path] and the merges file at [merges_path]: after a call,
    returned or raised, either both files are there or both paths are as
    they were before the call. *)
Definition all_or_nothing
    (save_op : string → option string → filesystem → filesystem * result (list string))
    (vocab_path merges_path : string → option string → string) : Prop :=
  ∀ directory prefix fs,
    let vp := vocab_path directory prefix in
    let mp := merges_path directory prefix in
    let fs' := (save_op directory prefix fs).1 in
    (is_file fs' vp ∧ is_file fs' mp) ∨
    (fs' !! vp = fs !! vp ∧ fs' !! mp = fs !! mp).

(** Every call of [save_vocabulary] on [self] that returns, returns exactly
    a pair of paths. *)
Definition returns_pairs (self : GPTTokenizerFast) : Prop :=
  ∀ directory prefix fs fs' paths,
    save_vocabulary self directory prefix fs = (fs', Ok paths) →
    ∃ vocab_path merges_path, paths = [vocab_path; merges_path].

(** No two keys of a table share an id (for a Merge Rank Table: a rank). *)
Definition unique_ids {K : Type} `{Countable K} (table : gmap K nat) : Prop :=
  ∀ k1 k2 i, table !! k1 = Some i → table !! k2 = Some i → k1 = k2.

(** The ranks of a Merge Rank Table are below its size: together with
    [unique_ids], the ranks are the line indices 0, 1, ... of its rules. *)
Definition dense_ranks (m : gmap (string * string) nat) : Prop :=
  map_Forall (λ _ rk, rk < size m) m.

(** Whether the character [c] occurs in [s]. *)
Fixpoint contains (c : ascii) (s : string) : bool :=
  match s with
  | EmptyString => false
  | String c' rest => if decide (c' = c) then true else contains c rest
  end.

(** A symbol with no space and no newline in it. *)
Definition plain (symbol : string) : Prop :=
  contains Persistence.space symbol = false ∧ contains Persistence.newline symbol = false.

(** Every symbol of every rule of a Merge Rank Table is plain. *)
Definition plain_symbols (m : gmap (string * string) nat) : Prop :=
  map_Forall (λ rule _, plain rule.1 ∧ plain rule.2) m.

(** The round-trip law for one Vocabulary Table: whenever [save] returns
    a path, [load] of that path gives the table back. *)
Definition vocabulary_round_trip (v : gmap string nat) : Prop :=
  ∀ directory prefix fs fs' path,
    Persistence.Vocabulary.save v directory prefix fs = (fs', Ok path) →
    Persistence.Vocabulary.load path fs' = Ok v.

(** The round-trip law for one Merge Rank Table. *)
Definition merges_round_trip (m : gmap (string * string) nat) : Prop :=
  ∀ directory prefix fs fs' path,
    Persistence.Merges.save m directory prefix fs = (fs', Ok path) →
    Persistence.Merges.load path fs' = Ok m.

(** ** Example tables *)
Module Examples.

Import Engine Persistence.

Definition vocab0 : VocabularyTable :=
  <["low" := 0]> (<["er</w>" := 1]> (<["<unk>" := 2]> ∅)).

Definition ranks0 : MergeRankTable :=
  <[("l", "o") := 0]> (<[("lo", "w") := 1]> (<[("e", "r</w>") := 2]> ∅)).

Definition engine0 : Engine.t :=
  {| vocab := vocab0; ranks := ranks0; unk_id := 2 |}.

(** An example backend for [self._tokenizer.model]: its [save] writes the
    vocabulary file, then the merges file, each with the table's own
    [save], and reports the two paths. *)
Definition sequential_model (e : Engine.t) : tokenizers.Model :=
  {| tokenizers.save := λ directory name fs,
       let '(fs1, r1) := Vocabulary.save (vocab e) directory name fs in
       match r1 with
       | Raise err => (fs1, Raise err)
       | Ok vocab_path =>
           let '(fs2, r2) := Merges.save (ranks e) directory name fs1 in
           match r2 with
           | Raise err => (fs2, Raise err)
           | Ok merges_path => (fs2, Ok [vocab_path; merges_path])
           end
       end |}.

(** An example tokenizer instance, holding that backend. *)
Definition over (e : Engine.t) : GPTTokenizerFast :=
  {| _tokenizer := {| tokenizers.model := sequential_model e |} |}.

(** The directory [out] holds a directory where the merges file goes. *)
Definition blocked_fs : filesystem :=
  <["out" := Directory true]> (<["out/merges.txt" := Directory true]> ∅).

(** A rule whose left symbol holds a space. *)
Definition spaced_ranks : MergeRankTable := {[ ("a b", "c") := 0 ]}.

(** A rule whose right symbol holds a newline. *)
Definition broken_ranks : MergeRankTable :=
  {[ ("a", String "b" (String newline "c")) := 0 ]}.

(** A single rule whose rank is not its line index. *)
Definition sparse_ranks : MergeRankTable := {[ ("a", "b") := 3 ]}.

End Examples.

(** ** Calls of the constructor *)

(** The parameters of [__init__] after [self], in the order of the
    signature. *)
Definition init_param_names : list string :=
  ["vocab_file"; "merges_file"; "tokenizer_file"; "unk_token"].

(** The keyword [name] is given in a call. *)
Definition given (kw : gmap string pyval) (name : string) : bool :=
  match kw !! name with
  | Some _ => true
  | None => false
  end.

(** A call gives some parameter twice: a positional argument fills it and
    a keyword names it. *)
Definition given_twice (args : list pyval) (kw : gmap string pyval) : bool :=
  existsb (given kw) (take (length args) init_param_names).

(** The value a call passes for parameter number [i], called [name]: the
    positional argument, else the keyword, else the default. *)
Definition passed (i : nat) (name : string) (dflt : pyval)
    (args : list pyval) (kw : gmap string pyval) : pyval :=
  match args !! i with
  | Some v => v
  | None => get kw name dflt
  end.

(** Example instances for [save_vocabulary]. *)
Module Backends.

(** A backend whose model is kept in one file: its [save] writes the file
    [vocab.txt] and reports that one path. *)
Definition single_file_model : tokenizers.Model :=
  {| tokenizers.save := λ directory name fs,
       let '(fs1, r) :=
         Persistence.write_file directory (Persistence.file_name name "vocab.txt")
           (TextDoc "") fs in
       (fs1, path ← r; Ok [path]) |}.

(** A tokenizer instance holding that backend, as a tokenizer file with
    such a model gives. *)
Definition single_file : GPTTokenizerFast :=
  {| _tokenizer := {| tokenizers.model := single_file_model |} |}.

(** A file system with the writable directory [out]. *)
Definition out_fs : filesystem := {[ "out" := Directory true ]}.

End Backends.

(** Example calls. *)
Module Calls.

(** An instance whose backend saves nothing. *)
Definition instance : GPTTokenizerFast :=
  {| _tokenizer :=
       {| tokenizers.model := {| tokenizers.save := λ _ _ fs, (fs, Ok []) |} |} |}.

(** An inherited constructor that accepts every call. *)
Definition accepting (pos : list pyval) (kws : gmap string pyval)
    : result GPTTokenizerFast :=
  Ok instance.

(** The keywords [unk_token="<oov>", pad_token="<pad>"]. *)
Definition keywords : gmap string pyval :=
  <["unk_token" := PyStr "<oov>"]> (<["pad_token" := PyStr "<pad>"]> ∅).

(** The positional arguments ["vocab.json", "merges.txt"]. *)
Definition files : list pyval := [PyStr "vocab.json"; PyStr "merges.txt"].

End Calls.

(** * Theorems *)

(** ** The adapter *)

Lemma bind_param_keyword i name dflt kw :
  bind_param i name dflt [] kw = Ok (get kw name dflt).
Proof. unfold bind_param, get. simpl. by destruct (kw !! name). Qed.

(** C4: the [do_lower_case] property is [True] on every instance,
    whatever the instance holds. *)
Theorem do_lower_case_always_true :
  ∀ self : GPTTokenizerFast, do_lower_case self = true.
Proof. intros self. reflexivity. Qed.

(** C10: the class attribute [max_model_input_sizes] is the table
    [PRETRAINED_POSITIONAL_EMBEDDINGS_SIZES], whose one entry gives the
    checkpoint ["openai-gpt"] the size 512. *)
Theorem max_model_input_sizes_openai_gpt :
  max_model_input_sizes = PRETRAINED_POSITIONAL_EMBEDDINGS_SIZES ∧
  max_model_input_sizes !! "openai-gpt" = Some 512%Z ∧
  dom max_model_input_sizes = {["openai-gpt"]}.
Proof.
  split; [reflexivity|]. split.
  - apply lookup_singleton_eq.
  - apply dom_singleton_L.
Qed.

(** C9: the constructor takes [vocab_file], [merges_file] and
    [tokenizer_file] as optional arguments and [unk_token] with the default
    ["<unk>"].  Every call by keywords (none of them [self], which the
    instance fills) binds, an omitted file argument reaches the inherited
    constructor as [None] and an omitted [unk_token] as ["<unk>"]; so do
    calls with no to four positional arguments. *)
Theorem init_optional_arguments :
  ∀ (super : list pyval → gmap string pyval → result GPTTokenizerFast)
    (kw : gmap string pyval),
    kw !! "self" = None →
    __init__ super [] kw =
      super [get kw "vocab_file" PyNone; get kw "merges_file" PyNone]
        (<["tokenizer_file" := get kw "tokenizer_file" PyNone]>
          (<["unk_token" := get kw "unk_token" (PyStr "<unk>")]>
            (delete "vocab_file" (delete "merges_file"
               (delete "tokenizer_file" (delete "unk_token" kw)))))) ∧
    __init__ super [] ∅ =
      super [PyNone; PyNone]
        (<["tokenizer_file" := PyNone]> (<["unk_token" := PyStr "<unk>"]> ∅)) ∧
    (∀ a, __init__ super [a] ∅ =
      super [a; PyNone]
        (<["tokenizer_file" := PyNone]> (<["unk_token" := PyStr "<unk>"]> ∅))) ∧
    (∀ a b, __init__ super [a; b] ∅ =
      super [a; b]
        (<["tokenizer_file" := PyNone]> (<["unk_token" := PyStr "<unk>"]> ∅))) ∧
    (∀ a b c, __init__ super [a; b; c] ∅ =
      super [a; b]
        (<["tokenizer_file" := c]> (<["unk_token" := PyStr "<unk>"]> ∅))) ∧
    (∀ a b c d, __init__ super [a; b; c; d] ∅ =
      super [a; b] (<["tokenizer_file" := c]> (<["unk_token" := d]> ∅))).
Proof.
  intros super kw Hself. split.
  { unfold __init__, bind_init. simpl.
    rewrite decide_False by (rewrite Hself; by intros [? ?]).
    by rewrite !bind_param_keyword. }
  repeat split; intros; reflexivity.
Qed.

(** A call by the keywords [unk_token] and [pad_token] alone: the three
    files are passed as [None]. *)
Lemma init_optional_arguments_witness :
  Calls.keywords !! "self" = None ∧
  __init__ Calls.accepting [] Calls.keywords =
    Calls.accepting [PyNone; PyNone]
      (<["tokenizer_file" := PyNone]>
        (<["unk_token" := PyStr "<oov>"]> (<["pad_token" := PyStr "<pad>"]> ∅))).
Proof.
  split; [reflexivity|].
  destruct (init_optional_arguments Calls.accepting Calls.keywords eq_refl) as [Hcall _].
  rewrite Hcall. reflexivity.
Defined.

(** [save_vocabulary] is the backend's [save]: same file system, same
    outcome, the reported paths as a tuple. *)
Lemma save_vocabulary_is_backend_save self directory prefix fs :
  save_vocabulary self directory prefix fs =
  tokenizers.save (tokenizers.model (_tokenizer self)) directory prefix fs.
Proof.
  unfold save_vocabulary.
  by destruct (tokenizers.save _ _ _ _) as [fs' [files|err]].
Qed.

Lemma write_file_Ok directory name data fs fs' path :
  Persistence.write_file directory name data fs = (fs', Ok path) →
  path = Persistence.path_join directory name ∧
  fs' !! path = Some (File data).
Proof.
  unfold Persistence.write_file. intros H.
  destruct (fs !! directory) as [[d|[]]|] eqn:Hdir; try done.
  - destruct (fs !! Persistence.path_join directory name) as [[d|w]|];
      simplify_eq; by rewrite lookup_insert_eq.
  - destruct (<[directory:=Directory true]> fs !! Persistence.path_join directory name)
      as [[d|w]|]; simplify_eq; by rewrite lookup_insert_eq.
Qed.

(** C6 (as stated, refuted): an instance whose backend keeps its model in
    one file.  The call returns, and what it returns is a tuple of one
    path, not a pair. *)
Lemma save_vocabulary_single_path :
  save_vocabulary Backends.single_file "out" None Backends.out_fs =
    ((save_vocabulary Backends.single_file "out" None Backends.out_fs).1,
     Ok ["out/vocab.txt"]) ∧
  ¬ returns_pairs Backends.single_file.
Proof.
  split; [reflexivity|].
  intros Hpairs.
  destruct (Hpairs "out" None Backends.out_fs _ _ eq_refl) as (vp & mp & Habs).
  discriminate Habs.
Qed.

(** C6 (amended): a call of [save_vocabulary] that returns, returns as a
    tuple exactly the paths the backend's [save] reported, as many and in
    the same order; so it returns the pair of the vocabulary file path and
    the merges file path exactly when the backend reported those two. *)
Theorem save_vocabulary_returns_backend_paths :
  ∀ (self : GPTTokenizerFast) (directory : string) (prefix : option string)
    (fs fs' : filesystem) (paths : list string),
    save_vocabulary self directory prefix fs = (fs', Ok paths) →
    (∃ files,
       tokenizers.save (tokenizers.model (_tokenizer self)) directory prefix fs
         = (fs', Ok files) ∧
       paths = tuple files) ∧
    (∀ vocab_path merges_path,
       paths = [vocab_path; merges_path] ↔
       tokenizers.save (tokenizers.model (_tokenizer self)) directory prefix fs
         = (fs', Ok [vocab_path; merges_path])).
Proof.
  intros self directory prefix fs fs' paths Hsave.
  rewrite save_vocabulary_is_backend_save in Hsave. split.
  - by exists paths.
  - intros vp mp. rewrite Hsave. split; [by intros ->|by intros [= ->]].
Qed.

(** The example engine saved with the prefix [gpt] into the directory
    [out]: the backend reports its two files, and the call returns that
    pair. *)
Lemma save_vocabulary_returns_backend_paths_witness :
  save_vocabulary (Examples.over Examples.engine0) "out" (Some "gpt") Backends.out_fs =
    ((save_vocabulary (Examples.over Examples.engine0) "out" (Some "gpt")
        Backends.out_fs).1,
     Ok ["out/gpt-vocab.json"; "out/gpt-merges.txt"]) ∧
  tokenizers.save (tokenizers.model (_tokenizer (Examples.over Examples.engine0)))
    "out" (Some "gpt") Backends.out_fs =
    ((save_vocabulary (Examples.over Examples.engine0) "out" (Some "gpt")
        Backends.out_fs).1,
     Ok ["out/gpt-vocab.json"; "out/gpt-merges.txt"]).
Proof.
  assert (save_vocabulary (Examples.over Examples.engine0) "out" (Some "gpt")
            Backends.out_fs =
          ((save_vocabulary (Examples.over Examples.engine0) "out" (Some "gpt")
              Backends.out_fs).1,
           Ok ["out/gpt-vocab.json"; "out/gpt-merges.txt"])) as Hsave.
  { vm_compute. reflexivity. }
  split; [exact Hsave|].
  destruct (save_vocabulary_returns_backend_paths _ _ _ _ _ _ Hsave) as [_ Hpair].
  apply Hpair. reflexivity.
Defined.

(** C5 (as stated, refuted): with a backend that writes the vocabulary
    file and then the merges file, and a directory where the merges file
    should go, [save_vocabulary] raises after the vocabulary file was
    written: one file without the other. *)
Lemma save_vocabulary_partial_write :
  (save_vocabulary (Examples.over Examples.engine0) "out" None Examples.blocked_fs).2
    = Raise IOError ∧
  Examples.blocked_fs !! "out/vocab.json" = None ∧
  is_file
    (save_vocabulary (Examples.over Examples.engine0) "out" None Examples.blocked_fs).1
    "out/vocab.json" ∧
  ¬ is_file
    (save_vocabulary (Examples.over Examples.engine0) "out" None Examples.blocked_fs).1
    "out/merges.txt" ∧
  ¬ all_or_nothing (save_vocabulary (Examples.over Examples.engine0))
      Persistence.vocab_path Persistence.merges_path.
Proof.
  split; [vm_compute; reflexivity|].
  split; [vm_compute; reflexivity|].
  split; [eexists; vm_compute; reflexivity|].
  split.
  - intros [data Hdata]. vm_compute in Hdata. discriminate.
  - intros Hatomic.
    destruct (Hatomic "out" None Examples.blocked_fs) as [[_ [data Hm]]|[Hv _]].
    + vm_compute in Hm. discriminate.
    + vm_compute in Hv. discriminate.
Qed.

(** C5 (amended): [save_vocabulary] writes, renames and rolls back nothing
    of its own: the file system after a call, returned or raised, is the
    one the backend's [save] left, an exception of the backend is raised
    unchanged, and the paths it reports are returned as they are.  So the
    call is all-or-nothing exactly when the backend's [save] is. *)
Theorem save_vocabulary_effect_is_backend_effect :
  ∀ (self : GPTTokenizerFast) (directory : string) (prefix : option string)
    (fs : filesystem),
    let backend := tokenizers.save (tokenizers.model (_tokenizer self)) in
    (save_vocabulary self directory prefix fs).1 = (backend directory prefix fs).1 ∧
    (save_vocabulary self directory prefix fs).2 = (backend directory prefix fs).2 ∧
    (∀ vocab_path merges_path,
       all_or_nothing (save_vocabulary self) vocab_path merges_path ↔
       all_or_nothing backend vocab_path merges_path).
Proof.
  intros self directory prefix fs backend.
  rewrite save_vocabulary_is_backend_save. repeat split.
  - intros H d p fs0. specialize (H d p fs0).
    by rewrite save_vocabulary_is_backend_save in H.
  - intros H d p fs0. rewrite save_vocabulary_is_backend_save. apply H.
Qed.

(** ** The encoder *)

Section Encoder.

Import Engine.

Variable m : MergeRankTable.

Lemma initial_symbols_length word :
  length (initial_symbols word) = String.length word.
Proof.
  induction word as [|c rest IH]; [done|].
  destruct rest as [|c' rest']; [done|].
  change (initial_symbols (String c (String c' rest')))
    with (String c EmptyString :: initial_symbols (String c' rest')).
  rewrite length_cons, IH. done.
Qed.

Lemma ranked_at_functional syms i l r rk l' r' rk' :
  ranked_at m syms i l r rk → ranked_at m syms i l' r' rk' →
  l = l' ∧ r = r' ∧ rk = rk'.
Proof.
  intros (Hl & Hr & Hrk) (Hl' & Hr' & Hrk'). simplify_eq. done.
Qed.

Lemma ranked_at_bound syms i l r rk :
  ranked_at m syms i l r rk → S i < length syms.
Proof. intros (_ & Hr & _). by apply lookup_lt_Some in Hr. Qed.

(** The scan keeps, of the pairs left of position [i], the leftmost one of
    lowest rank; at the end of the list that pair is the selected one. *)
Lemma scan_pairs_spec full syms :
  ∀ i best,
    drop i full = syms →
    match best with
    | Some (j, rk) =>
        j < i ∧ (∃ l r, ranked_at m full j l r rk) ∧
        ∀ j' l' r' rk', j' < i → ranked_at m full j' l' r' rk' →
                        rk < rk' ∨ (rk = rk' ∧ j ≤ j')
    | None => ∀ j' l' r' rk', j' < i → ¬ ranked_at m full j' l' r' rk'
    end →
    match scan_pairs m i syms best with
    | Some (j, rk) => ∃ l r, selected m full j l r rk
    | None => ∀ j' l' r' rk', ¬ ranked_at m full j' l' r' rk'
    end.
Proof.
  induction syms as [|l syms IH]; intros i best Hdrop Hinv.
  - (* the scan is past the end *)
    assert (length full ≤ i) as Hlen.
    { apply (f_equal length) in Hdrop. rewrite length_drop in Hdrop. simpl in Hdrop. lia. }
    simpl. destruct best as [[j rk]|].
    + destruct Hinv as (Hj & (l & r & Hjr) & Hmin). exists l, r. split; [done|].
      intros j' l' r' rk' H'. apply (Hmin j' l' r' rk'); [|done].
      apply ranked_at_bound in H'. lia.
    + intros j' l' r' rk' H'. apply (Hinv j' l' r' rk'); [|done].
      apply ranked_at_bound in H'. lia.
  - destruct syms as [|r rest].
    + (* one symbol left: no pair starts here *)
      assert (length full = S i) as Hlen.
      { apply (f_equal length) in Hdrop. rewrite length_drop in Hdrop. simpl in Hdrop. lia. }
      simpl. destruct best as [[j rk]|].
      * destruct Hinv as (Hj & (l0 & r0 & Hjr) & Hmin). exists l0, r0. split; [done|].
        intros j' l' r' rk' H'. apply (Hmin j' l' r' rk'); [|done].
        apply ranked_at_bound in H'. lia.
      * intros j' l' r' rk' H'. apply (Hinv j' l' r' rk'); [|done].
        apply ranked_at_bound in H'. lia.
    + (* the pair (l, r) stands at position i *)
      assert (full !! i = Some l) as Hl.
      { rewrite <- (Nat.add_0_r i), <- lookup_drop, Hdrop. done. }
      assert (full !! S i = Some r) as Hr.
      { replace (S i) with (i + 1) by lia. rewrite <- lookup_drop, Hdrop. done. }
      assert (drop (S i) full = r :: rest) as Hdrop'.
      { replace (S i) with (i + 1) by lia. rewrite <- drop_drop, Hdrop. done. }
      change (scan_pairs m i (l :: r :: rest) best) with
        (scan_pairs m (S i) (r :: rest)
           match rankOf m l r, best with
           | Some rk, Some (_, rk0) => if decide (rk < rk0) then Some (i, rk) else best
           | Some rk, None => Some (i, rk)
           | None, _ => best
           end).
      apply IH; [done|].
      destruct (rankOf m l r) as [rk|] eqn:Hrk.
      * assert (ranked_at m full i l r rk) as Hhere by done.
        destruct best as [[j rk0]|].
        -- destruct Hinv as (Hj & (l0 & r0 & Hjr) & Hmin).
           case_decide as Hlt.
           ++ split; [lia|]. split; [by exists l, r|].
              intros j' l' r' rk' Hj' H'.
              destruct (decide (j' = i)) as [->|Hne].
              ** destruct (ranked_at_functional _ _ _ _ _ _ _ _ Hhere H') as (_ & _ & <-). lia.
              ** destruct (Hmin j' l' r' rk') as [?|[? ?]]; [lia|done|lia|lia].
           ++ split; [lia|]. split; [by exists l0, r0|].
              intros j' l' r' rk' Hj' H'.
              destruct (decide (j' = i)) as [->|Hne].
              ** destruct (ranked_at_functional _ _ _ _ _ _ _ _ Hhere H') as (_ & _ & <-). lia.
              ** apply (Hmin j' l' r' rk'); [lia|done].
        -- split; [lia|]. split; [by exists l, r|].
           intros j' l' r' rk' Hj' H'.
           destruct (decide (j' = i)) as [->|Hne].
           ++ destruct (ranked_at_functional _ _ _ _ _ _ _ _ Hhere H') as (_ & _ & <-). lia.
           ++ exfalso. apply (Hinv j' l' r' rk'); [lia|done].
      * destruct best as [[j rk0]|].
        -- destruct Hinv as (Hj & (l0 & r0 & Hjr) & Hmin).
           split; [lia|]. split; [by exists l0, r0|].
           intros j' l' r' rk' Hj' H'.
           destruct (decide (j' = i)) as [->|Hne].
           ++ destruct H' as (Hl' & Hr' & Hrk'). simplify_eq.
           ++ apply (Hmin j' l' r' rk'); [lia|done].
        -- intros j' l' r' rk' Hj' H'.
           destruct (decide (j' = i)) as [->|Hne].
           ++ destruct H' as (Hl' & Hr' & Hrk'). simplify_eq.
           ++ apply (Hinv j' l' r' rk'); [lia|done].
Qed.

Lemma best_pair_spec syms :
  match best_pair m syms with
  | Some (i, rk) => ∃ l r, selected m syms i l r rk
  | None => ∀ j l r rk, ¬ ranked_at m syms j l r rk
  end.
Proof.
  unfold best_pair. apply scan_pairs_spec; [done|].
  intros j' l' r' rk' Hj'. lia.
Qed.

Lemma selected_unique syms i l r rk i' l' r' rk' :
  selected m syms i l r rk → selected m syms i' l' r' rk' →
  i = i' ∧ l = l' ∧ r = r' ∧ rk = rk'.
Proof.
  intros [H1 Hmin1] [H2 Hmin2].
  specialize (Hmin1 _ _ _ _ H2). specialize (Hmin2 _ _ _ _ H1).
  assert (i = i') as <- by lia.
  destruct (ranked_at_functional _ _ _ _ _ _ _ _ H1 H2) as (? & ? & ?). done.
Qed.

Lemma merge_at_pair syms i l r :
  syms !! i = Some l → syms !! S i = Some r →
  merge_at i syms = take i syms ++ (l +:+ r) :: drop (2 + i) syms.
Proof.
  intros Hl Hr. unfold merge_at.
  rewrite (drop_S _ _ _ Hl), (drop_S _ _ _ Hr). done.
Qed.

Lemma merge_step_Some syms syms' :
  merge_step m syms = Some syms' ↔ bpe_step m syms syms'.
Proof.
  unfold merge_step. pose proof (best_pair_spec syms) as Hbest.
  destruct (best_pair m syms) as [[i rk]|]; split.
  - intros [= <-]. destruct Hbest as (l & r & Hsel).
    rewrite (merge_at_pair _ _ l r); [|apply Hsel..].
    by econstructor.
  - intros Hstep. destruct Hstep as [syms i' l' r' rk' Hsel'].
    destruct Hbest as (l & r & Hsel).
    destruct (selected_unique _ _ _ _ _ _ _ _ _ Hsel Hsel') as (<- & <- & <- & <-).
    f_equal. apply merge_at_pair; apply Hsel.
  - done.
  - intros Hstep. destruct Hstep as [syms i' l' r' rk' [Hranked _]].
    by destruct (Hbest _ _ _ _ Hranked).
Qed.

Lemma merge_step_None syms :
  merge_step m syms = None ↔ nf (bpe_step m) syms.
Proof.
  split.
  - intros Hnone [syms' Hstep]. apply merge_step_Some in Hstep. congruence.
  - intros Hnf. destruct (merge_step m syms) as [syms'|] eqn:Hstep; [|done].
    destruct Hnf. exists syms'. by apply merge_step_Some.
Qed.

Lemma bpe_step_deterministic syms s1 s2 :
  bpe_step m syms s1 → bpe_step m syms s2 → s1 = s2.
Proof.
  intros H1 H2. apply merge_step_Some in H1, H2. congruence.
Qed.

Lemma bpe_step_length syms syms' :
  bpe_step m syms syms' → length syms = S (length syms') ∧ 0 < length syms'.
Proof.
  intros [s i l r rk [Hranked _]].
  pose proof (ranked_at_bound _ _ _ _ _ Hranked) as Hlt.
  rewrite length_app, length_take, length_cons, length_drop. lia.
Qed.

Lemma nsteps_bpe_length n syms syms' :
  nsteps (bpe_step m) n syms syms' → length syms = n + length syms'.
Proof.
  induction 1 as [|n x y z Hstep _ IH]; [done|].
  apply bpe_step_length in Hstep. lia.
Qed.

(** With one transition of fuel for every symbol but the first, the loop
    reaches a state that has no ranked pair. *)
Lemma merge_loop_run fuel :
  ∀ syms, length syms ≤ S fuel →
    ∃ n final,
      n ≤ length syms - 1 ∧ nsteps (bpe_step m) n syms final ∧
      nf (bpe_step m) final ∧ merge_loop m fuel syms = Some final.
Proof.
  induction fuel as [|fuel IH]; intros syms Hlen.
  - exists 0, syms. assert (merge_step m syms = None) as Hnone.
    { destruct (merge_step m syms) as [syms'|] eqn:Hstep; [|done].
      apply merge_step_Some, bpe_step_length in Hstep. lia. }
    split; [lia|]. split; [constructor|]. split; [by apply merge_step_None|].
    simpl. by rewrite Hnone.
  - destruct (merge_step m syms) as [syms'|] eqn:Hstep.
    + pose proof Hstep as Hrel. apply merge_step_Some in Hrel.
      pose proof (bpe_step_length _ _ Hrel) as [Hlen' Hpos].
      destruct (IH syms') as (n & final & Hn & Hrun & Hnf & Hloop); [lia|].
      exists (S n), final. split; [lia|]. split; [by econstructor|].
      split; [done|]. simpl. by rewrite Hstep.
    + exists 0, syms. split; [lia|]. split; [constructor|].
      split; [by apply merge_step_None|]. simpl. by rewrite Hstep.
Qed.

Lemma merge_loop_unfold fuel syms :
  merge_loop m (S fuel) syms =
  match merge_step m syms with
  | Some syms' => merge_loop m fuel syms'
  | None => Some syms
  end.
Proof. simpl. by destruct (merge_step m syms). Qed.

End Encoder.

Lemma nsteps_bpe_bound m n syms syms' :
  nsteps (Engine.bpe_step m) n syms syms' → n ≤ length syms - 1.
Proof.
  intros Hrun. destruct n as [|n]; [lia|].
  pose proof (nsteps_bpe_length _ _ _ _ Hrun) as Hlen.
  apply nsteps_inv_r in Hrun as (mid & _ & Hlast).
  apply bpe_step_length in Hlast. lia.
Qed.

Lemma bpe_run m word :
  ∃ n final,
    n ≤ String.length word - 1 ∧
    nsteps (Engine.bpe_step m) n (Engine.initial_symbols word) final ∧
    nf (Engine.bpe_step m) final ∧
    Engine.bpe m word = Some final.
Proof.
  unfold Engine.bpe.
  destruct (merge_loop_run m (String.length word - 1) (Engine.initial_symbols word))
    as (n & final & Hn & Hrun & Hnf & Hloop).
  { rewrite initial_symbols_length. lia. }
  rewrite initial_symbols_length in Hn. by exists n, final.
Qed.

Lemma bpe_encodes_word m word final :
  Engine.bpe m word = Some final → Engine.encodes_word m word final.
Proof.
  intros Hbpe. destruct (bpe_run m word) as (n & final' & _ & Hrun & Hnf & Hbpe').
  simplify_eq. split; [by eapply rtc_nsteps_2|done].
Qed.

Lemma rtc_nf_deterministic {A} (R : relation A) x y z :
  (∀ a b c, R a b → R a c → b = c) →
  rtc R x y → nf R y → rtc R x z → nf R z → y = z.
Proof.
  intros Hdet Hxy. revert z.
  induction Hxy as [x|x x' y Hstep Hrest IH]; intros z Hy Hxz Hz.
  - destruct Hxz as [|x x'' z Hstep' _]; [done|]. destruct Hy. by exists x''.
  - destruct Hxz as [|x x'' z Hstep' Hrest'].
    + destruct Hz. by exists x'.
    + rewrite <- (Hdet _ _ _ Hstep Hstep') in Hrest'. by apply IH.
Qed.

Lemma encodes_word_deterministic m word f1 f2 :
  Engine.encodes_word m word f1 → Engine.encodes_word m word f2 → f1 = f2.
Proof.
  intros [Hrun1 Hnf1] [Hrun2 Hnf2].
  eapply rtc_nf_deterministic; [apply bpe_step_deterministic|done..].
Qed.

Lemma mapM_bpe_total m (ws : list string) :
  ∃ finals, mapM (Engine.bpe m) ws = Some finals.
Proof.
  apply (mapM_is_Some_2 (Engine.bpe m) ws), Forall_forall. intros w _.
  destruct (bpe_run m w) as (n & final & _ & _ & _ & Hbpe).
  unfold compose. rewrite Hbpe. by eexists.
Qed.

Lemma encode_symbols_total e text :
  ∃ syms, Engine.encode_symbols e text = Some syms.
Proof.
  unfold Engine.encode_symbols.
  destruct (mapM_bpe_total (Engine.ranks e) (Engine.split text)) as [finals ->].
  by eexists.
Qed.

Lemma encode_encodes e text ids :
  Engine.encode e text = Some ids → Engine.encodes e text ids.
Proof.
  unfold Engine.encode, Engine.encode_symbols.
  destruct (mapM (Engine.bpe (Engine.ranks e)) (Engine.split text)) as [finals|] eqn:Hfinals;
    [|done].
  intros [= <-]. exists finals. split; [|done].
  apply mapM_Some_1 in Hfinals.
  eapply Forall2_impl; [exact Hfinals|]. intros w f. apply bpe_encodes_word.
Qed.

(** C3: in every step of the merge loop the pair merged is, among the
    adjacent pairs that have a rank, the one of globally lowest rank, the
    leftmost one when that rank occurs more than once; with no ranked
    adjacent pair there is no step and the loop ends with the state
    unchanged. *)
Theorem merge_step_lowest_rank_leftmost :
  ∀ (m : Engine.MergeRankTable) (syms : list string),
    match Engine.merge_step m syms with
    | Some syms' =>
        ∃ i l r rk,
          (syms !! i = Some l ∧ syms !! S i = Some r ∧ Engine.rankOf m l r = Some rk) ∧
          (∀ j l' r' rk',
             syms !! j = Some l' → syms !! S j = Some r' →
             Engine.rankOf m l' r' = Some rk' →
             rk ≤ rk' ∧ (rk' = rk → i ≤ j)) ∧
          syms' = take i syms ++ (l +:+ r) :: drop (2 + i) syms ∧
          (∀ fuel, Engine.merge_loop m (S fuel) syms = Engine.merge_loop m fuel syms')
    | None =>
        (∀ j l r, syms !! j = Some l → syms !! S j = Some r → Engine.rankOf m l r = None) ∧
        (∀ fuel, Engine.merge_loop m fuel syms = Some syms)
    end.
Proof.
  intros m syms. destruct (Engine.merge_step m syms) as [syms'|] eqn:Hstep.
  - pose proof Hstep as Hrel. apply merge_step_Some in Hrel.
    destruct Hrel as [syms i l r rk [Hranked Hmin]].
    exists i, l, r, rk. split; [exact Hranked|]. split; [|split; [done|]].
    + intros j l' r' rk' Hl' Hr' Hrk'.
      destruct (Hmin j l' r' rk') as [?|[? ?]]; [done|lia..].
    + intros fuel. by rewrite merge_loop_unfold, Hstep.
  - split.
    + intros j l r Hl Hr. apply merge_step_None in Hstep.
      destruct (Engine.rankOf m l r) as [rk|] eqn:Hrk; [|done].
      pose proof (best_pair_spec m syms) as Hbest. unfold Engine.merge_step in *.
      destruct (Engine.best_pair m syms) as [[i rk0]|]; [|].
      * destruct Hbest as (l0 & r0 & Hsel). destruct Hstep. eexists. by econstructor.
      * by destruct (Hbest j l r rk).
    + intros [|fuel]; simpl; by rewrite Hstep.
Qed.

(** C8: on every word the merge loop ends within [|word|-1] merges: no
    run of the encoder from the word's initial symbols is longer, and the
    loop given that many transitions returns a state with no ranked pair;
    so [encode] returns on every text. *)
Theorem merge_loop_terminates_within_bound :
  ∀ (m : Engine.MergeRankTable) (word : string),
    (∀ n syms,
       nsteps (Engine.bpe_step m) n (Engine.initial_symbols word) syms →
       n ≤ String.length word - 1) ∧
    (∃ n final,
       n ≤ String.length word - 1 ∧
       nsteps (Engine.bpe_step m) n (Engine.initial_symbols word) final ∧
       Engine.merge_step m final = None ∧
       Engine.bpe m word = Some final) ∧
    (∀ (e : Engine.t) (text : string), ∃ ids, Engine.encode e text = Some ids).
Proof.
  intros m word. split; [|split].
  - intros n syms Hrun. apply nsteps_bpe_bound in Hrun.
    by rewrite initial_symbols_length in Hrun.
  - destruct (bpe_run m word) as (n & final & Hn & Hrun & Hnf & Hbpe).
    exists n, final. by rewrite merge_step_None.
  - intros e text. unfold Engine.encode.
    destruct (encode_symbols_total e text) as [syms ->]. by eexists.
Qed.

(** C1: [encode] returns on every text, and every symbol its merge loops
    leave is given its vocabulary id, or the configured unknown-token id
    when the Vocabulary Table has no entry for it. *)
Theorem encode_unknown_fallback :
  ∀ (e : Engine.t) (text : string),
    ∃ syms ids,
      Engine.encode_symbols e text = Some syms ∧
      Engine.encode e text = Some ids ∧
      length ids = length syms ∧
      ∀ k symbol,
        syms !! k = Some symbol →
        (Engine.tokenToId (Engine.vocab e) symbol = None →
         ids !! k = Some (Engine.unk_id e)) ∧
        (∀ i, Engine.tokenToId (Engine.vocab e) symbol = Some i → ids !! k = Some i).
Proof.
  intros e text. destruct (encode_symbols_total e text) as [syms Hsyms].
  exists syms, (Engine.id_of e <$> syms). unfold Engine.encode. rewrite Hsyms.
  split; [done|]. split; [done|]. split; [by rewrite length_fmap|].
  intros k symbol Hk. rewrite list_lookup_fmap, Hk. unfold Engine.id_of. simpl.
  split; [by intros ->|by intros i ->].
Qed.

Lemma encodes_functional e text ids1 ids2 :
  Engine.encodes e text ids1 → Engine.encodes e text ids2 → ids1 = ids2.
Proof.
  intros (finals1 & Hruns1 & ->) (finals2 & Hruns2 & ->).
  f_equal. f_equal. revert finals2 Hruns2.
  induction Hruns1 as [|w f1 ws fs1 Hf1 _ IH]; intros finals2 Hruns2.
  - by apply Forall2_nil_inv_l in Hruns2 as ->.
  - apply Forall2_cons_inv_l in Hruns2 as (f2 & fs2 & Hf2 & Hrest & ->).
    f_equal; [by eapply encodes_word_deterministic | by apply IH].
Qed.

(** C2: the ids of a text are determined by the text and the two tables:
    any two runs of the encoder on the same text with the same engine end
    with the same sequence of ids, the one [encode] computes from the text
    and the tables alone. *)
Theorem encode_deterministic :
  ∀ (e : Engine.t) (text : string) (ids1 ids2 : list nat),
    Engine.encodes e text ids1 → Engine.encodes e text ids2 →
    ids1 = ids2 ∧ Engine.encode e text = Some ids1.
Proof.
  intros e text ids1 ids2 Hrun1 Hrun2. split; [by eapply encodes_functional|].
  destruct (encode_symbols_total e text) as [syms Hsyms].
  assert (Engine.encode e text = Some (Engine.id_of e <$> syms)) as Hencode.
  { unfold Engine.encode. by rewrite Hsyms. }
  rewrite Hencode. f_equal.
  eapply encodes_functional; [|exact Hrun1]. by apply encode_encodes.
Qed.

(** Two runs on a text of three words and a comma, with the example
    engine. *)
Lemma encode_deterministic_witness :
  Engine.encodes Examples.engine0 "Lower lower, low" [0; 1; 0; 1; 2; 2; 2] ∧
  ∀ ids, Engine.encodes Examples.engine0 "Lower lower, low" ids →
         [0; 1; 0; 1; 2; 2; 2] = ids ∧
         Engine.encode Examples.engine0 "Lower lower, low" = Some [0; 1; 0; 1; 2; 2; 2].
Proof.
  assert (Engine.encodes Examples.engine0 "Lower lower, low" [0; 1; 0; 1; 2; 2; 2]) as Hrun.
  { apply encode_encodes. vm_compute. reflexivity. }
  split; [exact Hrun|].
  intros ids Hids.
  exact (encode_deterministic Examples.engine0 "Lower lower, low" _ ids Hrun Hids).
Defined.

(** ** Persistence: the two file formats *)

Section RoundTrip.

Import Engine Persistence.

Lemma mapM_result_fmap {A B} (f : A → result B) (g : B → A) (l : list B) :
  Forall (λ x, f (g x) = Ok x) l → mapM f (g <$> l) = Ok l.
Proof.
  induction 1 as [|x l Hx _ IH]; [done|].
  rewrite fmap_cons.
  change (mapM f (g x :: (g <$> l)))
    with (y ← f (g x); k ← mapM f (g <$> l); mret (y :: k)).
  by rewrite Hx, IH.
Qed.

Lemma unique_ids_NoDup {K} `{Countable K} (table : gmap K nat) :
  unique_ids table ↔ NoDup (map_to_list table).*2.
Proof.
  split.
  - intros Huniq. apply NoDup_fmap_2_strong; [|apply NoDup_map_to_list].
    intros [k1 i1] [k2 i2] H1 H2 Heq. simpl in Heq. subst i2.
    apply elem_of_map_to_list in H1, H2. f_equal. by eapply Huniq.
  - intros Hnodup k1 k2 i H1 H2.
    apply elem_of_map_to_list in H1, H2.
    apply list_elem_of_lookup in H1 as [n1 H1], H2 as [n2 H2].
    assert (n1 = n2) as ->; [|congruence].
    eapply NoDup_lookup; [exact Hnodup| |];
      rewrite list_lookup_fmap; [by rewrite H1|by rewrite H2].
Qed.

Lemma sorted_table {K} `{Countable K} (table : gmap K nat) :
  list_to_map (merge_sort by_number (map_to_list table)) = table.
Proof.
  rewrite <- (list_to_map_to_list table) at 2.
  apply list_to_map_proper; [|apply merge_sort_Permutation].
  rewrite merge_sort_Permutation. apply NoDup_fst_map_to_list.
Qed.

(** *** The vocabulary document *)

Lemma vocab_json_round_trip (v : VocabularyTable) :
  unique_ids v → vocab_of_json (vocab_to_json v) = Ok v.
Proof.
  intros Huniq. unfold vocab_of_json, vocab_to_json.
  rewrite (mapM_result_fmap member_entry _ (merge_sort by_number (map_to_list v))).
  2:{ apply Forall_forall. intros [tok i] _. unfold member_entry. simpl.
      rewrite decide_True by lia. by rewrite Nat2Z.id. }
  simpl.
  assert (list_to_map (reverse (merge_sort by_number (map_to_list v))) = v) as ->.
  { rewrite <- (sorted_table v) at 2.
    apply list_to_map_proper; [|apply reverse_Permutation].
    rewrite reverse_Permutation, merge_sort_Permutation. apply NoDup_fst_map_to_list. }
  rewrite decide_True; [done|]. by apply unique_ids_NoDup.
Qed.

(** *** Lines and fields *)

Lemma append_empty (s : string) : EmptyString +:+ s = s.
Proof. reflexivity. Qed.

Lemma append_String c (s1 s2 : string) : String c s1 +:+ s2 = String c (s1 +:+ s2).
Proof. reflexivity. Qed.

Lemma lines_line (l rest : string) :
  contains newline l = false →
  lines (l +:+ String newline rest) = l :: lines rest.
Proof.
  induction l as [|c l IH]; cbn [contains]; intros Hl.
  - rewrite append_empty. cbn [lines]. by rewrite decide_True.
  - rewrite append_String. cbn [lines].
    case_decide as Hc; [done|]. by rewrite IH.
Qed.

Lemma lines_unlines (ls : list string) :
  Forall (λ l, contains newline l = false) ls → lines (unlines ls) = ls.
Proof.
  induction 1 as [|l ls Hl _ IH]; [done|].
  simpl. rewrite lines_line by done. by rewrite IH.
Qed.

Lemma split_on_plain sep (s : string) :
  contains sep s = false → split_on sep s = [s].
Proof.
  induction s as [|c s IH]; cbn [split_on contains]; intros Hs; [done|].
  case_decide as Hc; [done|]. by rewrite IH.
Qed.

Lemma split_on_field sep (l r : string) :
  contains sep l = false →
  split_on sep (l +:+ String sep r) = l :: split_on sep r.
Proof.
  induction l as [|c l IH]; cbn [contains]; intros Hl.
  - rewrite append_empty. cbn [split_on]. by rewrite decide_True.
  - rewrite append_String. cbn [split_on].
    case_decide as Hc; [done|]. by rewrite IH.
Qed.

Lemma contains_app c (s1 s2 : string) :
  contains c (s1 +:+ s2) = contains c s1 || contains c s2.
Proof.
  induction s1 as [|c' s1 IH]; [done|].
  rewrite append_String. cbn [contains]. case_decide; [done|]. apply IH.
Qed.

Lemma parse_rule_line (rule : string * string) :
  plain rule.1 → plain rule.2 → parse_rule (rule_line rule) = Ok rule.
Proof.
  destruct rule as [l r]. intros [Hl _] [Hr _]. simpl in *.
  unfold parse_rule, rule_line. cbn [fst snd].
  rewrite split_on_field by done. by rewrite split_on_plain.
Qed.

Lemma rule_line_no_newline (rule : string * string) :
  plain rule.1 → plain rule.2 → contains newline (rule_line rule) = false.
Proof.
  destruct rule as [l r]. intros [_ Hl] [_ Hr]. simpl in *.
  unfold rule_line. cbn [fst snd]. rewrite contains_app. cbn [contains].
  rewrite Hl, Hr. by rewrite decide_False.
Qed.

(** *** Ranks as line indices *)

Lemma imap_index {A} (l : list (A * nat)) :
  ∀ k, l.*2 = seq k (length l) → imap (λ i x, (x, k + i)) l.*1 = l.
Proof.
  induction l as [|[x n] l IH]; intros k Hseq; [done|].
  simpl in Hseq. injection Hseq as -> Hseq.
  rewrite fmap_cons, imap_cons. simpl. rewrite Nat.add_0_r. f_equal.
  rewrite <- (IH (S k) Hseq) at 2. apply imap_ext. intros i y _. simpl. f_equal. lia.
Qed.

Lemma seq_sorted n : ∀ j, StronglySorted le (seq j n).
Proof.
  induction n as [|n IH]; intros j; simpl; constructor; [apply IH|].
  apply Forall_forall. intros k Hk. apply elem_of_seq in Hk. lia.
Qed.

Lemma sorted_ranks_seq (m : MergeRankTable) :
  unique_ids m → dense_ranks m →
  (merge_sort by_number (map_to_list m)).*2 = seq 0 (size m).
Proof.
  intros Huniq Hdense.
  set (sorted := merge_sort by_number (map_to_list m)).
  assert (sorted ≡ₚ map_to_list m) as Hperm by apply merge_sort_Permutation.
  apply (StronglySorted_unique le).
  - apply (StronglySorted_fmap _ by_number); [done|].
    apply StronglySorted_merge_sort; apply _.
  - apply seq_sorted.
  - apply submseteq_length_Permutation.
    + apply NoDup_submseteq.
      * rewrite Hperm. by apply unique_ids_NoDup.
      * intros rk Hrk. rewrite Hperm in Hrk.
        apply list_elem_of_fmap in Hrk as ([rule rk'] & -> & Hin).
        apply elem_of_map_to_list in Hin. apply Hdense in Hin. simpl in *.
        apply elem_of_seq. lia.
    + rewrite length_seq, length_fmap, Hperm, length_map_to_list. done.
Qed.

(** *** The merges text *)

Lemma merges_text_round_trip (m : MergeRankTable) :
  unique_ids m → dense_ranks m → plain_symbols m →
  merges_of_text (merges_to_text m) = Ok m.
Proof.
  intros Huniq Hdense Hplain.
  set (sorted := merge_sort by_number (map_to_list m)).
  assert (sorted ≡ₚ map_to_list m) as Hperm by apply merge_sort_Permutation.
  assert (Forall (λ rule : string * string, plain rule.1 ∧ plain rule.2) sorted.*1)
    as Hrules.
  { apply Forall_forall. intros rule Hin.
    apply list_elem_of_fmap in Hin as ([rule' rk] & -> & Hin).
    rewrite Hperm in Hin. apply elem_of_map_to_list in Hin. by apply Hplain in Hin. }
  unfold merges_of_text, merges_to_text. fold sorted.
  rewrite lines_unlines.
  2:{ constructor; [by vm_compute|]. apply Forall_fmap.
      eapply Forall_impl; [exact Hrules|]. intros rule [? ?]. simpl.
      by apply rule_line_no_newline. }
  change (is_header merges_header) with true. cbv iota.
  rewrite (mapM_result_fmap parse_rule rule_line sorted.*1).
  2:{ eapply Forall_impl; [exact Hrules|]. intros rule [? ?]. simpl.
      by apply parse_rule_line. }
  simpl. rewrite decide_True.
  2:{ rewrite Hperm. apply NoDup_fst_map_to_list. }
  f_equal.
  pose proof (imap_index sorted 0) as Hindex. simpl in Hindex.
  rewrite Hindex.
  - apply sorted_table.
  - pose proof (sorted_ranks_seq m Huniq Hdense) as Hseq. fold sorted in Hseq.
    by rewrite Hseq, Hperm, length_map_to_list.
Qed.

(** *** Through the file system *)

Lemma read_file_written path data (fs : filesystem) :
  fs !! path = Some (File data) → read_file path fs = Ok data.
Proof. unfold read_file. by intros ->. Qed.

Lemma vocabulary_save_load (v : VocabularyTable) directory prefix fs fs' path :
  unique_ids v →
  Vocabulary.save v directory prefix fs = (fs', Ok path) →
  Vocabulary.load path fs' = Ok v.
Proof.
  intros Huniq Hsave. apply write_file_Ok in Hsave as [_ Hfile].
  unfold Vocabulary.load. rewrite (read_file_written _ _ _ Hfile). simpl.
  by apply vocab_json_round_trip.
Qed.

Lemma merges_save_load (m : MergeRankTable) directory prefix fs fs' path :
  unique_ids m → dense_ranks m → plain_symbols m →
  Merges.save m directory prefix fs = (fs', Ok path) →
  Merges.load path fs' = Ok m.
Proof.
  intros Huniq Hdense Hplain Hsave. apply write_file_Ok in Hsave as [_ Hfile].
  unfold Merges.load. rewrite (read_file_written _ _ _ Hfile). simpl.
  by apply merges_text_round_trip.
Qed.

End RoundTrip.

(** C7 (as stated, refuted): three Merge Rank Tables with unique ranks
    that do not survive [save] followed by [load].  A rule with a space in
    a symbol is written as a line of three fields and a rule with a newline
    in a symbol as two lines, which [load] rejects with a [FormatError]; a
    rule whose rank is not its line index is loaded with the line index as
    its rank. *)
Lemma merges_round_trip_fails :
  (unique_ids Examples.spaced_ranks ∧ ¬ merges_round_trip Examples.spaced_ranks ∧
   Persistence.merges_of_text (Persistence.merges_to_text Examples.spaced_ranks)
     = Raise FormatError) ∧
  (unique_ids Examples.broken_ranks ∧ ¬ merges_round_trip Examples.broken_ranks ∧
   Persistence.merges_of_text (Persistence.merges_to_text Examples.broken_ranks)
     = Raise FormatError) ∧
  (unique_ids Examples.sparse_ranks ∧ ¬ merges_round_trip Examples.sparse_ranks ∧
   Persistence.merges_of_text (Persistence.merges_to_text Examples.sparse_ranks)
     = Ok {[ ("a", "b") := 0 ]}).
Proof.
  assert (∀ m : Engine.MergeRankTable,
            Persistence.Merges.save m "out" None ∅ =
            ((Persistence.Merges.save m "out" None ∅).1, Ok "out/merges.txt")) as Hsave.
  { intros m. reflexivity. }
  split; [|split]; (split; [apply unique_ids_NoDup; vm_compute; apply NoDup_singleton|]).
  - split; [|vm_compute; reflexivity].
    intros Hlaw. pose proof (Hlaw "out" None ∅ _ _ (Hsave _)) as Hload.
    vm_compute in Hload. discriminate.
  - split; [|vm_compute; reflexivity].
    intros Hlaw. pose proof (Hlaw "out" None ∅ _ _ (Hsave _)) as Hload.
    vm_compute in Hload. discriminate.
  - split; [|vm_compute; reflexivity].
    intros Hlaw. pose proof (Hlaw "out" None ∅ _ _ (Hsave _)) as Hload.
    apply (f_equal (λ r : result Engine.MergeRankTable,
                      match r with Ok t => t !! ("a", "b") | Raise _ => None end)) in Hload.
    vm_compute in Hload. discriminate.
Qed.

(** C7 (amended): [save] followed by [load] gives back the table, for
    every Vocabulary Table with unique ids, and for every Merge Rank Table
    with unique ranks whose ranks are the line indices of its rules (all
    below the number of rules) and whose symbols hold no space and no
    newline; for the document written and through the file system. *)
Theorem tables_round_trip :
  ∀ (v : Engine.VocabularyTable) (m : Engine.MergeRankTable),
    unique_ids v →
    unique_ids m → dense_ranks m → plain_symbols m →
    Persistence.vocab_of_json (Persistence.vocab_to_json v) = Ok v ∧
    Persistence.merges_of_text (Persistence.merges_to_text m) = Ok m ∧
    vocabulary_round_trip v ∧
    merges_round_trip m.
Proof.
  intros v m Hv Hm Hdense Hplain.
  split; [by apply vocab_json_round_trip|].
  split; [by apply merges_text_round_trip|].
  split; intros directory prefix fs fs' path Hsave.
  - by eapply vocabulary_save_load.
  - by eapply merges_save_load.
Qed.

(** The round trip of the example tables through the directory [out] of an
    empty file system. *)
Lemma tables_round_trip_witness :
  (unique_ids Examples.vocab0 ∧ unique_ids Examples.ranks0 ∧
   dense_ranks Examples.ranks0 ∧ plain_symbols Examples.ranks0) ∧
  Persistence.Vocabulary.load "out/vocab.json"
    (Persistence.Vocabulary.save Examples.vocab0 "out" None ∅).1 = Ok Examples.vocab0 ∧
  Persistence.Merges.load "out/merges.txt"
    (Persistence.Merges.save Examples.ranks0 "out" None ∅).1 = Ok Examples.ranks0.
Proof.
  assert (unique_ids Examples.vocab0) as Hv.
  { apply unique_ids_NoDup. refine (bool_decide_unpack _ _). vm_compute. exact I. }
  assert (unique_ids Examples.ranks0) as Hm.
  { apply unique_ids_NoDup. refine (bool_decide_unpack _ _). vm_compute. exact I. }
  assert (dense_ranks Examples.ranks0) as Hdense.
  { refine (bool_decide_unpack _ _). vm_compute. exact I. }
  assert (plain_symbols Examples.ranks0) as Hplain.
  { refine (bool_decide_unpack _ _). vm_compute. exact I. }
  split; [done|].
  destruct (tables_round_trip Examples.vocab0 Examples.ranks0 Hv Hm Hdense Hplain)
    as (_ & _ & Hvocab & Hmerges).
  split; [apply (Hvocab "out" None ∅)|apply (Hmerges "out" None ∅)]; reflexivity.
Defined.

(** ** More on the adapter: which calls the constructor accepts *)

(** A call with more than four positional arguments, or with a parameter
    given both as a positional argument and as a keyword, raises a
    [TypeError]; the inherited constructor is not called. *)
Theorem init_rejects_call :
  ∀ (super : list pyval → gmap string pyval → result GPTTokenizerFast)
    (args : list pyval) (kw : gmap string pyval),
    4 < length args ∨ given_twice args kw = true →
    __init__ super args kw = Raise TypeError.
Proof.
  intros super args kw Hbad. unfold __init__, bind_init.
  case_decide as Hlen; [done|]. case_decide as Hself; [done|].
  destruct Hbad as [?|Htwice]; [lia|].
  destruct args as [|a [|b [|c [|d [|e rest]]]]]; simpl in Hlen; try lia;
    unfold given_twice, given, bind_param in *; simpl in *;
    destruct (kw !! "vocab_file"), (kw !! "merges_file"),
             (kw !! "tokenizer_file"), (kw !! "unk_token");
    simpl in *; done.
Qed.

(** Six positional arguments, and a vocabulary file given twice, with an
    inherited constructor that would accept the call. *)
Lemma init_rejects_call_witness :
  (4 < length (Calls.files ++ Calls.files ++ Calls.files) ∧
   __init__ Calls.accepting (Calls.files ++ Calls.files ++ Calls.files) ∅
     = Raise TypeError) ∧
  (given_twice Calls.files (<["vocab_file" := PyNone]> ∅) = true ∧
   __init__ Calls.accepting Calls.files (<["vocab_file" := PyNone]> ∅)
     = Raise TypeError).
Proof.
  split.
  - split; [simpl; lia|].
    apply (init_rejects_call Calls.accepting). left. simpl. lia.
  - split; [reflexivity|].
    apply (init_rejects_call Calls.accepting). right. reflexivity.
Defined.

(** Every other call is accepted: the inherited constructor is called
    once, with [vocab_file] and [merges_file] as its two positional
    arguments and [tokenizer_file] and [unk_token] as keywords, each
    parameter taken from the positional argument, else from the keyword,
    else from its default; the result of [__init__] is the inherited
    constructor's.  The other calls are those with more than four
    positional arguments, a parameter given twice, or a keyword [self]. *)
Theorem init_accepts_call :
  ∀ (super : list pyval → gmap string pyval → result GPTTokenizerFast)
    (args : list pyval) (kw : gmap string pyval),
    length args ≤ 4 → given_twice args kw = false → kw !! "self" = None →
    __init__ super args kw =
    super [passed 0 "vocab_file" PyNone args kw; passed 1 "merges_file" PyNone args kw]
      (<["tokenizer_file" := passed 2 "tokenizer_file" PyNone args kw]>
        (<["unk_token" := passed 3 "unk_token" (PyStr "<unk>") args kw]>
          (delete "vocab_file" (delete "merges_file"
             (delete "tokenizer_file" (delete "unk_token" kw)))))).
Proof.
  intros super args kw Hlen Honce Hself. unfold __init__, bind_init.
  rewrite decide_False by lia.
  rewrite decide_False by (rewrite Hself; by intros [? ?]).
  destruct args as [|a [|b [|c [|d [|e rest]]]]]; simpl in Hlen; try lia;
    unfold given_twice, given, bind_param, passed, get in *; simpl in *;
    destruct (kw !! "vocab_file"), (kw !! "merges_file"),
             (kw !! "tokenizer_file"), (kw !! "unk_token");
    simpl in *; done.
Qed.

(** Two files by position, the unknown token and one more keyword. *)
Lemma init_accepts_call_witness :
  (length Calls.files ≤ 4 ∧ given_twice Calls.files Calls.keywords = false ∧
   Calls.keywords !! "self" = None) ∧
  __init__ Calls.accepting Calls.files Calls.keywords =
  Calls.accepting [PyStr "vocab.json"; PyStr "merges.txt"]
    (<["tokenizer_file" := PyNone]>
      (<["unk_token" := PyStr "<oov>"]> (<["pad_token" := PyStr "<pad>"]> ∅))).
Proof.
  split; [split; [simpl; lia|split; reflexivity]|].
  rewrite (init_accepts_call Calls.accepting Calls.files Calls.keywords);
    [reflexivity|simpl; lia|reflexivity|reflexivity].
Defined.

(** The keywords of an accepted call reach the inherited constructor: a
    keyword that names no parameter is passed on with its value,
    [tokenizer_file] and [unk_token] are always passed, [vocab_file] and
    [merges_file] never (they go by position), [self] never (an accepted
    call has no such keyword), and [**kwargs] never holds a keyword that
    the call of the inherited constructor also writes out. *)
Theorem init_forwards_keywords :
  ∀ (args : list pyval) (kw : gmap string pyval) (a : init_args),
    bind_init args kw = Ok a →
    ∃ forwarded : gmap string pyval,
      (∀ super, __init__ super args kw = super [vocab_file a; merges_file a] forwarded) ∧
      (∀ k, k ∉ init_param_names → forwarded !! k = kw !! k) ∧
      forwarded !! "tokenizer_file" = Some (tokenizer_file a) ∧
      forwarded !! "unk_token" = Some (unk_token a) ∧
      forwarded !! "vocab_file" = None ∧
      forwarded !! "merges_file" = None ∧
      forwarded !! "self" = None ∧
      kwargs a !! "tokenizer_file" = None ∧
      kwargs a !! "unk_token" = None.
Proof.
  intros args kw a Hbind.
  assert (kw !! "self" = None) as Hself.
  { unfold bind_init in Hbind. case_decide; [done|].
    case_decide as Hs; [done|]. by apply eq_None_not_Some. }
  exists (<["tokenizer_file" := tokenizer_file a]> (<["unk_token" := unk_token a]> (kwargs a))).
  split; [intros super; unfold __init__; by rewrite Hbind|].
  assert (kwargs a = delete "vocab_file" (delete "merges_file"
            (delete "tokenizer_file" (delete "unk_token" kw)))) as ->.
  { unfold bind_init in Hbind. case_decide; [done|]. case_decide; [done|].
    destruct (bind_param 0 _ _ _ _); [|done].
    destruct (bind_param 1 _ _ _ _); [|done].
    destruct (bind_param 2 _ _ _ _); [|done].
    destruct (bind_param 3 _ _ _ _); [|done].
    simpl in Hbind. by injection Hbind as <-. }
  split.
  { intros k Hk. unfold init_param_names in Hk.
    rewrite !not_elem_of_cons in Hk. destruct Hk as (? & ? & ? & ? & _).
    by rewrite !lookup_insert_ne, !lookup_delete_ne. }
  repeat split; by simplify_map_eq.
Qed.

(** The keywords of the example call. *)
Lemma init_forwards_keywords_witness :
  ∃ a, bind_init Calls.files Calls.keywords = Ok a ∧
    ∃ forwarded : gmap string pyval,
      (∀ super, __init__ super Calls.files Calls.keywords
                = super [vocab_file a; merges_file a] forwarded) ∧
      (∀ k, k ∉ init_param_names → forwarded !! k = Calls.keywords !! k) ∧
      forwarded !! "tokenizer_file" = Some (tokenizer_file a) ∧
      forwarded !! "unk_token" = Some (unk_token a) ∧
      forwarded !! "vocab_file" = None ∧
      forwarded !! "merges_file" = None ∧
      forwarded !! "self" = None ∧
      kwargs a !! "tokenizer_file" = None ∧
      kwargs a !! "unk_token" = None.
Proof.
  eexists. split; [reflexivity|].
  exact (init_forwards_keywords Calls.files Calls.keywords _ eq_refl).
Defined.

(** ** More on the adapter: the module's tables *)

(** The three tables agree: the pretrained map has an entry for exactly
    the file kinds of [vocab_files_names], each entry lists exactly the
    checkpoints of [max_model_input_sizes], and the remote file of a kind
    and a checkpoint is the file of the local name in the checkpoint's
    [resolve/main] directory of the mirror. *)
Theorem pretrained_files_match_vocab_files :
  dom pretrained_vocab_files_map = dom vocab_files_names ∧
  (∀ kind urls,
     pretrained_vocab_files_map !! kind = Some urls →
     dom urls = dom max_model_input_sizes) ∧
  (∀ kind name,
     vocab_files_names !! kind = Some name →
     ∀ checkpoint size,
       max_model_input_sizes !! checkpoint = Some size →
       (pretrained_vocab_files_map !! kind) ≫= (λ urls, urls !! checkpoint) =
       Some ("https://hf-mirror.com/" +:+ checkpoint +:+ "/resolve/main/" +:+ name)).
Proof.
  split; [|split].
  - refine (bool_decide_unpack _ _). vm_compute. exact I.
  - refine (bool_decide_unpack
              (map_Forall (λ (_ : string) (urls : gmap string string),
                             dom urls = dom max_model_input_sizes)
                          pretrained_vocab_files_map) _).
    vm_compute. exact I.
  - refine (bool_decide_unpack
              (map_Forall (λ (kind name : string),
                 map_Forall (λ (checkpoint : string) (_ : Z),
                   (pretrained_vocab_files_map !! kind) ≫= (λ urls, urls !! checkpoint) =
                   Some ("https://hf-mirror.com/" +:+ checkpoint +:+ "/resolve/main/" +:+ name))
                   max_model_input_sizes)
                 vocab_files_names) _).
    vm_compute. exact I.
Qed.
